(** * LS-8 emulator: a shallow embedding of [src/project/ls8/cpu.js]

    The class [CPU] of cpu.js is embedded as a record of its fields and a
    state monad over it; every method and every closure of [tick] becomes a
    computation of that monad, under the name it has in the source.

    Modelling conventions.
    - JavaScript numbers are doubles.  Every number the machine handles is
      an integer and is embedded as a [Z].  The sums and products of [alu]
      are rounded as doubles are ([double]): exact up to 2^53 in magnitude,
      to the nearest double beyond, and outside the embedding once they
      overflow.  The steps by 1, 2 or an instruction length that the loop
      and the stack take on [PC] and the stack pointer are embedded as
      exact, which they are below 2^53.
    - [this.reg] is an array of eight numbers that carries two extra
      properties, [PC] and [FL].  The array is a [list Z] read and written
      with stdpp's lookup and insert; the properties are record fields.
    - Reading a register index outside the array yields [undefined] in
      JavaScript, and writing one grows the array.  Neither is a number of
      the machine, so the embedding stops there: the computation returns
      [None].  [None] never stands for an exception of the source.
    - [console.log] appends to the [console] field, most recent entry first.
    - [setInterval]/[clearInterval] are embedded by the boolean [clock]:
      the interval callback runs only while [clock] is [true].

    The file src/unnamed/part_000 is the earlier variant of the same class
    (no CMP, no conditional jumps, a stub interrupt handler); the embedding
    follows cpu.js. *)

From stdpp Require Import base option list list_numbers numbers gmap.

Open Scope Z_scope.

(** ** Memory *)

Module RAM.

(** Modelled from the spec: the Memory collaborator handed to the
    constructor ([this.ram]); its class is not part of the sources.  The
    spec gives it as a flat store exposing [read(address) -> byte] and
    [write(address, byte)]; a read returns what was last written at that
    address.  Nothing here masks addresses or values, as nothing in
    cpu.js does. *)
Definition t : Type := Z -> Z.

Definition read (m : t) (address : Z) : Z := m address.

Definition write (m : t) (address value : Z) : t :=
  fun a => if decide (a = address) then value else m a.

(** A memory holding [0] everywhere except for the listed cells. *)
Definition of_list (cells : list (Z * Z)) : t :=
  foldr (fun c m => write m c.1 c.2) (fun _ => 0) cells.

End RAM.

(** ** Machine state *)

(** What [console.log] receives, one constructor per call site of cpu.js. *)
Inductive log_entry : Type :=
  | LogRam (i v : Z)      (* `ram index ${i}: `, this.ram.read(i) *)
  | LogRule               (* '----------' *)
  | LogPC (pc : Z)        (* 'PC: ', this.reg.PC *)
  | LogReg (i v : Z)      (* `register ${i}: `, this.reg[i] *)
  | LogEndInt (pc : Z)    (* 'end of int general, PC: ', this.reg.PC *)
  | LogChar (code : Z)    (* String.fromCharCode(this.reg[register]) *)
  | LogNum (v : Z)        (* this.reg[register] *)
  | LogInvalid (ir : Z).  (* `${ir.toString(2)} is not a valid instruction; halting operation.` *)

Record CPU : Type := mkCPU {
  ram : RAM.t;               (* this.ram *)
  reg : list Z;              (* this.reg[0..7] *)
  PC : Z;                    (* this.reg.PC *)
  FL : Z;                    (* this.reg.FL *)
  clock : bool;              (* this.clock is a live interval *)
  console : list log_entry   (* console output, most recent first *)
}.

(** The state monad of the embedding. *)
Definition M (A : Type) : Type := CPU -> option (A * CPU).

#[global] Instance M_ret : MRet M := fun A a s => Some (a, s).

#[global] Instance M_bind : MBind M := fun A B f m s =>
  match m s with
  | Some (a, s') => f a s'
  | None => None
  end.

(** State after a computation, when it yields one. *)
Definition exec {A} (m : M A) (s : CPU) : option CPU := snd <$> m s.

(** [for (i of l) body(i)] *)
Fixpoint for_each (l : list Z) (body : Z -> M unit) : M unit :=
  match l with
  | [] => mret tt
  | i :: l' => body i ;; for_each l' body
  end.

(** *** Field access *)

Definition get_PC : M Z := fun s => Some (PC s, s).

Definition set_PC (v : Z) : M unit := fun s =>
  Some (tt, mkCPU (ram s) (reg s) v (FL s) (clock s) (console s)).

Definition get_FL : M Z := fun s => Some (FL s, s).

Definition set_FL (v : Z) : M unit := fun s =>
  Some (tt, mkCPU (ram s) (reg s) (PC s) v (clock s) (console s)).

(** [this.reg[i]] as an rvalue. *)
Definition get_reg (i : Z) : M Z := fun s =>
  if decide (0 <= i) then v ← reg s !! Z.to_nat i; Some (v, s) else None.

(** [this.reg[i] = v] *)
Definition set_reg (i v : Z) : M unit := fun s =>
  if decide (0 <= i < Z.of_nat (length (reg s)))
  then Some (tt, mkCPU (ram s) (<[Z.to_nat i := v]> (reg s)) (PC s) (FL s)
                       (clock s) (console s))
  else None.

(** [this.ram.read(address)] *)
Definition ram_read (address : Z) : M Z := fun s =>
  Some (RAM.read (ram s) address, s).

(** [this.ram.write(address, value)] *)
Definition ram_write (address value : Z) : M unit := fun s =>
  Some (tt, mkCPU (RAM.write (ram s) address value) (reg s) (PC s) (FL s)
                  (clock s) (console s)).

(** [console.log(...)] *)
Definition log (e : log_entry) : M unit := fun s =>
  Some (tt, mkCPU (ram s) (reg s) (PC s) (FL s) (clock s) (e :: console s)).

(** ** The class *)

(** [x >>> n] on a number: the shift of its unsigned 32-bit image. *)
Definition ushr (x n : Z) : Z := Z.shiftr (x mod 2 ^ 32) n.

(** [constructor(ram)] *)
Definition constructor (m : RAM.t) : CPU :=
  mkCPU m (<[6%nat := 0]> (<[7%nat := 0xF4]> (replicate 8 0))) 0 0 false [].

(** [poke(address, value)] *)
Definition poke (address value : Z) : M unit := ram_write address value.

(** [stopClock()]: [clearInterval(this.clock)] *)
Definition stopClock : M unit := fun s =>
  Some (tt, mkCPU (ram s) (reg s) (PC s) (FL s) false (console s)).

(** The double nearest to the integer [z], ties going to the even
    significand, when that double is finite: 53 significant bits, and
    [Infinity] from 2^1024 on. *)
Definition double (z : Z) : option Z :=
  let m := Z.abs z in
  if m <? 2 ^ 53 then Some z
  else
    let shift := Z.log2 m - 52 in
    let q := Z.shiftr m shift in
    let r := Z.land m (Z.ones shift) in
    let half := 2 ^ (shift - 1) in
    let q' := if (half <? r) || ((r =? half) && Z.odd q) then q + 1 else q in
    let v := Z.shiftl q' shift in
    if v <? 2 ^ 1024 then Some (Z.sgn z * v) else None.

(** The number an arithmetic operator returns for the exact result [z]. *)
Definition number (z : Z) : M Z := fun s => v ← double z; Some (v, s).

Inductive alu_op : Type := ALU_MUL | ALU_ADD.

(** [alu(op, regA, regB)] *)
Definition alu (op : alu_op) (regA regB : Z) : M Z :=
  match op with
  | ALU_MUL => a ← get_reg regA; b ← get_reg regB; number (a * b)
  | ALU_ADD => a ← get_reg regA; b ← get_reg regB; number (a + b)
  end.

(** *** Constants of [tick] *)

Definition ADD  : Z := 0xA8.  (* 0b10101000 *)
Definition CALL : Z := 0x48.  (* 0b01001000 *)
Definition CMP  : Z := 0xA0.  (* 0b10100000 *)
Definition HLT  : Z := 0x01.  (* 0b00000001 *)
Definition JEQ  : Z := 0x51.  (* 0b01010001 *)
Definition JGT  : Z := 0x54.  (* 0b01010100 *)
Definition JLT  : Z := 0x53.  (* 0b01010011 *)
Definition JMP  : Z := 0x50.  (* 0b01010000 *)
Definition JNE  : Z := 0x52.  (* 0b01010010 *)
Definition LDI  : Z := 0x99.  (* 0b10011001 *)
Definition MUL  : Z := 0xAA.  (* 0b10101010 *)
Definition POP  : Z := 0x4C.  (* 0b01001100 *)
Definition PRA  : Z := 0x42.  (* 0b01000010 *)
Definition PRN  : Z := 0x43.  (* 0b01000011 *)
Definition PUSH : Z := 0x4D.  (* 0b01001101 *)
Definition RET  : Z := 0x09.  (* 0b00001001 *)
Definition ST   : Z := 0x9A.  (* 0b10011010 *)

Definition SP : Z := 7.  (* Stack Pointer *)
Definition IS : Z := 6.  (* Interrupt Status *)

(** *** Handlers *)

(** [this.ram.write(--this.reg[SP], value)] *)
Definition handle_PUSHval (value : Z) : M unit :=
  sp ← get_reg SP;
  set_reg SP (sp - 1);;
  ram_write (sp - 1) value.

(** [this.ram.write(--this.reg[SP], this.reg[register])]: the decrement is
    the first argument, so it happens before the register is read. *)
Definition handle_PUSH (register : Z) : M unit :=
  sp ← get_reg SP;
  set_reg SP (sp - 1);;
  v ← get_reg register;
  ram_write (sp - 1) v.

(** [return this.ram.read(this.reg[SP]++)] *)
Definition handle_POPval : M Z :=
  sp ← get_reg SP;
  set_reg SP (sp + 1);;
  ram_read sp.

Definition handle_POP (register : Z) : M unit :=
  v ← handle_POPval;
  set_reg register v.

Definition handle_ADD (registerA registerB : Z) : M unit :=
  v ← alu ALU_ADD registerA registerB;
  set_reg registerA v.

Definition handle_MUL (registerA registerB : Z) : M unit :=
  v ← alu ALU_MUL registerA registerB;
  set_reg registerA v.

Definition handle_CALL (register : Z) : M unit :=
  pc ← get_PC;
  handle_PUSHval (pc + 2);;
  v ← get_reg register;
  set_PC v.

(** [switch (true)] over the three comparisons, in source order. *)
Definition handle_CMP (registerA registerB : Z) : M unit :=
  a ← get_reg registerA;
  b ← get_reg registerB;
  if bool_decide (a = b) then set_FL 1        (* 0b00000001 *)
  else if bool_decide (a > b) then set_FL 2   (* 0b00000010 *)
  else if bool_decide (a < b) then set_FL 4   (* 0b00000100 *)
  else mret tt.

Definition handle_HLT : M unit := stopClock.

Definition handle_JMP (register : Z) : M unit :=
  v ← get_reg register;
  set_PC v.

Definition handle_JEQ (register : Z) : M unit :=
  fl ← get_FL;
  if bool_decide (fl = 1) then handle_JMP register
  else pc ← get_PC; set_PC (pc + 2).

Definition handle_JGT (register : Z) : M unit :=
  fl ← get_FL;
  if bool_decide (fl = 2) then handle_JMP register
  else pc ← get_PC; set_PC (pc + 2).

Definition handle_JLT (register : Z) : M unit :=
  fl ← get_FL;
  if bool_decide (fl = 4) then handle_JMP register
  else pc ← get_PC; set_PC (pc + 2).

Definition handle_JNE (register : Z) : M unit :=
  fl ← get_FL;
  if bool_decide (fl ≠ 1) then handle_JMP register
  else pc ← get_PC; set_PC (pc + 2).

Definition handle_LDI (register value : Z) : M unit :=
  set_reg register value.

Definition handle_PRA (register : Z) : M unit :=
  v ← get_reg register;
  log (LogChar v).

Definition handle_PRN (register : Z) : M unit :=
  v ← get_reg register;
  log (LogNum v).

Definition handle_RET : M unit :=
  v ← handle_POPval;
  set_PC v.

Definition handle_ST (registerA registerB : Z) : M unit :=
  a ← get_reg registerA;
  b ← get_reg registerB;
  ram_write a b.

Definition handle_invalid_instruction (instruction : Z) : M unit :=
  log (LogInvalid instruction);;
  handle_HLT.

(** [for (let i = 255; i > 234; i--) console.log(`ram index ${i}: `, ...)] *)
Definition log_high_ram : M unit :=
  for_each (reverse (seqZ 235 21)) (fun i => v ← ram_read i; log (LogRam i v)).

Definition interrupt_general : M unit :=
  log_high_ram;;
  log LogRule;;
  (pc ← get_PC; log (LogPC pc));;
  for_each (seqZ 0 8) (fun i => v ← get_reg i; log (LogReg i v));;
  log LogRule;;
  set_reg 6 0;;
  (pc ← get_PC; handle_PUSHval pc);;
  for_each (seqZ 0 8) (fun i => v ← get_reg i; handle_PUSHval v);;
  (v ← ram_read 0xF8; set_PC v);;
  (pc ← get_PC; log (LogEndInt pc));;
  log_high_ram;;
  log LogRule.

(** *** The branch table *)

(** A handler with the number of parameters its arrow function declares. *)
Inductive handler : Type :=
  | H0 (h : M unit)
  | H1 (h : Z -> M unit)
  | H2 (h : Z -> Z -> M unit).


(** [h(operandA, operandB)]: surplus arguments are dropped. *)
Definition call (h : handler) (operandA operandB : Z) : M unit :=
  match h with
  | H0 h => h
  | H1 h => h operandA
  | H2 h => h operandA operandB
  end.

Definition branchTable_entries : list (Z * handler) :=
  [ (ADD, H2 handle_ADD);
    (CALL, H1 handle_CALL);
    (CMP, H2 handle_CMP);
    (HLT, H0 handle_HLT);
    (JEQ, H1 handle_JEQ);
    (JGT, H1 handle_JGT);
    (JLT, H1 handle_JLT);
    (JMP, H1 handle_JMP);
    (JNE, H1 handle_JNE);
    (LDI, H2 handle_LDI);
    (MUL, H2 handle_MUL);
    (POP, H1 handle_POP);
    (PRA, H1 handle_PRA);
    (PRN, H1 handle_PRN);
    (PUSH, H1 handle_PUSH);
    (RET, H0 handle_RET);
    (ST, H2 handle_ST) ].

Definition branchTable : gmap Z handler := list_to_map branchTable_entries.

(** *** The cycle *)

(** The opcodes whose [case] of the closing [switch] only breaks. *)
Definition sets_PC : list Z := [CALL; JEQ; JGT; JLT; JMP; JNE; RET].

(** [if (this.reg[IS] !== 0) interrupt_general()] *)
Definition interrupt_check : M unit :=
  pending ← get_reg IS;
  if bool_decide (pending ≠ 0) then interrupt_general else mret tt.

(** The branch-table call, or the invalid-instruction handler. *)
Definition dispatch (IR operandA operandB : Z) : M unit :=
  match branchTable !! IR with
  | Some h => call h operandA operandB
  | None => handle_invalid_instruction IR
  end.

(** The closing [switch (IR)]. *)
Definition advance_PC (IR : Z) : M unit :=
  if bool_decide (IR ∈ sets_PC) then mret tt
  else pc ← get_PC; set_PC (pc + (ushr IR 6 + 1)).

Definition tick : M unit :=
  pc ← get_PC;
  IR ← ram_read pc;
  operandA ← ram_read (pc + 1);
  operandB ← ram_read (pc + 2);
  interrupt_check;;
  dispatch IR operandA operandB;;
  advance_PC IR.

(** *** The clock *)

(** [startClock()]: [this.clock = setInterval(() => this.tick(), 1)] *)
Definition startClock : M unit := fun s =>
  Some (tt, mkCPU (ram s) (reg s) (PC s) (FL s) true (console s)).

(** One period of the interval: the callback runs if the interval is live. *)
Definition period : M unit := fun s =>
  if clock s then tick s else Some (tt, s).

(** [n] periods in a row. *)
Fixpoint periods (n : nat) : M unit :=
  match n with
  | O => mret tt
  | S n' => period ;; periods n'
  end.

(** ** Vocabulary of the statements *)

(** The register file has its eight slots. *)
Definition wf (s : CPU) : Prop := length (reg s) = 8%nat.

(** What [tick] does with a fetched instruction: the branch-table call
    followed by the closing [switch]. *)
Definition execute (IR operandA operandB : Z) : M unit :=
  dispatch IR operandA operandB ;; advance_PC IR.


Definition with_PC (v : Z) (s : CPU) : CPU :=
  mkCPU (ram s) (reg s) v (FL s) (clock s) (console s).

(** The lines [log_high_ram] prints, as they end up on the console. *)
Definition high_ram_lines (m : RAM.t) : list log_entry :=
  (fun i => LogRam i (RAM.read m i)) <$> seqZ 235 21.

(** The machine after [constructor], with the register file and [PC]
    replaced: the states the examples below start from. *)
Definition machine (cells : list (Z * Z)) (regs : list Z) (pc : Z) : CPU :=
  let s := constructor (RAM.of_list cells) in
  mkCPU (ram s) regs pc (FL s) true (console s).

(** A timer interrupt is pending while [PC] stands on [LDI R0, 42]; the
    vector at 0xF8 names a handler at 0x20, which starts with [HLT]. *)
Definition pending_at_LDI : CPU :=
  machine [(0, LDI); (1, 0); (2, 42); (0xF8, 0x20); (0x20, HLT)]
          [0; 0; 0; 0; 0; 0; 1; 0xF4] 0.



(** [ADD a b] leaves the sum in register [a] and register [b] as it was. *)
Definition ADD_sums_and_keeps_B (s : CPU) (a b : Z) : Prop :=
  forall va vb,
    reg s !! Z.to_nat a = Some va -> reg s !! Z.to_nat b = Some vb ->
    exists s', exec (execute ADD a b) s = Some s' /\
               reg s' !! Z.to_nat a = Some (va + vb) /\
               reg s' !! Z.to_nat b = Some vb.

(** A program that loads 8 and 9, multiplies them, prints and halts. *)
Definition demo : CPU :=
  constructor (RAM.of_list
    [(0, LDI); (1, 0); (2, 8); (3, LDI); (4, 1); (5, 9);
     (6, MUL); (7, 0); (8, 1); (9, PRN); (10, 0); (11, HLT)]).

(** A program that loads 255 and squares it three times. *)
Definition squares : CPU :=
  constructor (RAM.of_list
    [(0, LDI); (1, 0); (2, 255); (3, MUL); (4, 0); (5, 0);
     (6, MUL); (7, 0); (8, 0); (9, MUL); (10, 0); (11, 0); (12, HLT)]).

(** *** Vocabulary for what a computation leaves alone *)

(** Every run of [m] that yields a state relates the two states by [R]. *)
Definition respects {A} (R : CPU -> CPU -> Prop) (m : M A) : Prop :=
  forall s a s', m s = Some (a, s') -> R s s'.

(** [f] reads the same before and after. *)
Definition keeps {X} (f : CPU -> X) : CPU -> CPU -> Prop :=
  fun s s' => f s' = f s.

(** A stopped clock stays stopped. *)
Definition clock_not_started : CPU -> CPU -> Prop :=
  fun s s' => clock s' = true -> clock s = true.


(** ** Running the monad *)

Lemma run_bind {A B} (m : M A) (f : A -> M B) s a s1 r :
  m s = Some (a, s1) -> f a s1 = r -> (m ≫= f) s = r.
Proof. intros H1 H2. unfold mbind, M_bind. rewrite H1. exact H2. Qed.

Lemma get_reg_run s i v :
  0 <= i -> reg s !! Z.to_nat i = Some v -> get_reg i s = Some (v, s).
Proof.
  intros Hi Hv. unfold get_reg. rewrite decide_True by done.
  rewrite Hv. reflexivity.
Qed.

Lemma set_reg_run s i v :
  0 <= i < Z.of_nat (length (reg s)) ->
  set_reg i v s =
  Some (tt, mkCPU (ram s) (<[Z.to_nat i := v]> (reg s)) (PC s) (FL s)
                  (clock s) (console s)).
Proof. intros Hi. unfold set_reg. rewrite decide_True by done. reflexivity. Qed.

(** One primitive run on a state whose register file is spelled out. *)
Ltac prim :=
  lazymatch goal with
  | |- get_reg _ _ = _ => apply get_reg_run; [cbn; lia | reflexivity]
  | |- set_reg _ _ _ = _ => apply set_reg_run; cbn; lia
  | |- _ => reflexivity
  end.

Ltac tidy :=
  cbn beta; cbn [ram reg PC FL clock console];
  repeat match goal with
         | |- context [Z.to_nat ?c] =>
             let n := eval vm_compute in (Z.to_nat c) in
             change (Z.to_nat c) with n
         end;
  cbn [insert list_insert].

Ltac step := eapply run_bind; [ prim | tidy ].

Lemma handle_PUSHval_run s v sp :
  reg s !! 7%nat = Some sp ->
  handle_PUSHval v s =
  Some (tt, mkCPU (RAM.write (ram s) (sp - 1) v) (<[7%nat := sp - 1]> (reg s))
                  (PC s) (FL s) (clock s) (console s)).
Proof.
  intros Hsp. pose proof (lookup_lt_Some _ _ _ Hsp) as Hlen.
  unfold handle_PUSHval, SP.
  eapply run_bind; [apply get_reg_run; [lia | exact Hsp] |].
  eapply run_bind; [apply set_reg_run; lia |].
  reflexivity.
Qed.


Lemma log_ram_loop_run l s :
  for_each l (fun i => v ← ram_read i; log (LogRam i v)) s =
  Some (tt, mkCPU (ram s) (reg s) (PC s) (FL s) (clock s)
       (reverse ((fun i => LogRam i (RAM.read (ram s) i)) <$> l) ++ console s)).
Proof.
  revert s. induction l as [|i l IH]; intros s.
  - destruct s; reflexivity.
  - cbn [for_each]. eapply run_bind; [reflexivity|].
    rewrite IH. cbn [ram reg PC FL clock console].
    rewrite fmap_cons, reverse_cons, <- app_assoc. reflexivity.
Qed.

Lemma log_high_ram_run s :
  log_high_ram s =
  Some (tt, mkCPU (ram s) (reg s) (PC s) (FL s) (clock s)
                  (high_ram_lines (ram s) ++ console s)).
Proof.
  unfold log_high_ram. rewrite log_ram_loop_run.
  unfold high_ram_lines. rewrite <- fmap_reverse, reverse_involutive.
  reflexivity.
Qed.

Lemma wf_inv s :
  wf s -> exists r0 r1 r2 r3 r4 r5 r6 r7, reg s = [r0; r1; r2; r3; r4; r5; r6; r7].
Proof.
  unfold wf. destruct s as [m l pc fl ck out]; cbn [reg].
  do 8 (destruct l as [|? l]; [discriminate|]).
  destruct l; [|discriminate]. eauto 10.
Qed.


Lemma RAM_read_write_eq m a a' v : a' = a -> RAM.read (RAM.write m a v) a' = v.
Proof. intros ->. unfold RAM.read, RAM.write. rewrite decide_True; done. Qed.

Lemma RAM_read_write_ne m a a' v :
  a' <> a -> RAM.read (RAM.write m a v) a' = RAM.read m a'.
Proof. intros Hne. unfold RAM.read, RAM.write. rewrite decide_False; done. Qed.

Ltac ram_read :=
  repeat first [ rewrite RAM_read_write_eq by lia
               | rewrite RAM_read_write_ne by lia ].

(** Interrupt servicing on a register file [r0 .. r7]: what it leaves in
    the registers, in [PC], on the stack and on the console. *)
Lemma interrupt_general_run m r0 r1 r2 r3 r4 r5 r6 r7 pc fl ck out :
  exists m',
    interrupt_general (mkCPU m [r0; r1; r2; r3; r4; r5; r6; r7] pc fl ck out) =
    Some (tt, mkCPU m' [r0; r1; r2; r3; r4; r5; 0; r7 - 9]
                    (RAM.read m' 0xF8) fl ck
                    (LogRule :: high_ram_lines m' ++
                     LogEndInt (RAM.read m' 0xF8) :: LogRule ::
                     LogReg 7 r7 :: LogReg 6 r6 :: LogReg 5 r5 ::
                     LogReg 4 r4 :: LogReg 3 r3 :: LogReg 2 r2 ::
                     LogReg 1 r1 :: LogReg 0 r0 :: LogPC pc :: LogRule ::
                     high_ram_lines m ++ out)) /\
    (fun k => RAM.read m' (r7 - 9 + k)) <$> seqZ 0 9 =
      [r7 - 8; 0; r5; r4; r3; r2; r1; r0; pc] /\
    (forall a, a < r7 - 9 \/ r7 - 1 < a -> RAM.read m' a = RAM.read m a).
Proof.
  eexists. split; [|split].
  - unfold interrupt_general.
    eapply run_bind; [apply log_high_ram_run | tidy].
    step. step.
    change (seqZ 0 8) with [0; 1; 2; 3; 4; 5; 6; 7].
    eapply run_bind.
    { cbn [for_each].
      do 8 (eapply run_bind; [ step; reflexivity | tidy ]). reflexivity. }
    tidy. step. step.
    eapply run_bind; [ step; apply handle_PUSHval_run; reflexivity | tidy ].
    eapply run_bind.
    { cbn [for_each].
      do 8 (eapply run_bind;
            [ step; apply handle_PUSHval_run; reflexivity | tidy ]).
      reflexivity. }
    tidy.
    eapply run_bind; [ step; reflexivity | tidy ].
    eapply run_bind; [ step; reflexivity | tidy ].
    eapply run_bind; [ apply log_high_ram_run | tidy ].
    unfold log. cbn [ram reg PC FL clock console].
    replace (r7 - 9) with (r7 - 1 - 1 - 1 - 1 - 1 - 1 - 1 - 1 - 1) by lia.
    reflexivity.
  - change (seqZ 0 9) with [0; 1; 2; 3; 4; 5; 6; 7; 8].
    cbn [fmap list_fmap]. ram_read.
    f_equal. lia.
  - intros a Ha. ram_read. reflexivity.
Qed.

(** The constructor's machine runs the demonstration program to its end. *)
Example demo_prints_72 :
  console <$> exec (startClock ;; periods 10) demo = Some [LogNum 72].
Proof. vm_compute. reflexivity. Qed.

Lemma exec_seq {A} (m : M A) (k : M unit) s :
  exec (m ;; k) s = s1 ← exec m s; exec k s1.
Proof.
  unfold exec, mbind at 1, M_bind. destruct (m s) as [[a s1]|]; reflexivity.
Qed.

Lemma exec_run {A} (m : M A) s a s' : m s = Some (a, s') -> exec m s = Some s'.
Proof. unfold exec. intros ->. reflexivity. Qed.

(** *** The cycle, piece by piece *)

(** The instruction and its operands are those at the [PC] the tick starts
    with: they are read before the interrupt check runs. *)
Lemma tick_run s :
  tick s =
  (interrupt_check ;;
   execute (RAM.read (ram s) (PC s)) (RAM.read (ram s) (PC s + 1))
           (RAM.read (ram s) (PC s + 2))) s.
Proof. reflexivity. Qed.

Lemma interrupt_check_idle s :
  reg s !! 6%nat = Some 0 -> interrupt_check s = Some (tt, s).
Proof.
  intros H6. unfold interrupt_check, IS.
  eapply run_bind; [apply get_reg_run; [lia | exact H6] |].
  reflexivity.
Qed.

Lemma interrupt_check_pending s v :
  reg s !! 6%nat = Some v -> v <> 0 -> interrupt_check s = interrupt_general s.
Proof.
  intros H6 Hv. unfold interrupt_check, IS.
  eapply run_bind; [apply get_reg_run; [lia | exact H6] |].
  cbn beta. rewrite bool_decide_true by done. reflexivity.
Qed.

(** The interrupt check never fails on a full register file, and touches
    neither [FL] nor the clock nor the length of the register file. *)
Lemma interrupt_check_total s :
  wf s ->
  exists s1, interrupt_check s = Some (tt, s1) /\
             wf s1 /\ FL s1 = FL s /\ clock s1 = clock s.
Proof.
  intros (r0&r1&r2&r3&r4&r5&r6&r7&E)%wf_inv.
  destruct s as [m l pc fl ck out]; cbn [reg] in E; subst l.
  destruct (decide (r6 = 0)) as [->|Hne].
  - rewrite interrupt_check_idle by reflexivity.
    eexists. split; [reflexivity|]. repeat split.
  - rewrite (interrupt_check_pending _ r6) by done.
    destruct (interrupt_general_run m r0 r1 r2 r3 r4 r5 r6 r7 pc fl ck out)
      as (m' & -> & _).
    eexists. split; [reflexivity|]. repeat split.
Qed.

Lemma advance_PC_run IR s :
  advance_PC IR s =
  Some (tt, if bool_decide (IR ∈ sets_PC) then s
            else with_PC (PC s + (ushr IR 6 + 1)) s).
Proof. unfold advance_PC. destruct (bool_decide (IR ∈ sets_PC)); reflexivity. Qed.

Lemma dispatch_invalid IR a b :
  branchTable !! IR = None -> dispatch IR a b = handle_invalid_instruction IR.
Proof. intros H. unfold dispatch. rewrite H. reflexivity. Qed.

Lemma periods_stopped n s : clock s = false -> periods n s = Some (tt, s).
Proof.
  intros Hc. induction n as [|n IH]; [reflexivity|].
  cbn [periods]. eapply run_bind; [|exact IH].
  unfold period. rewrite Hc. reflexivity.
Qed.

(** ** The claims *)

(** C1 (the code departs from it).  A tick that starts with IS nonzero does
    not dispatch the instruction found at the handler address.  Here the
    handler at 0x20 starts with HLT, yet the tick runs the LDI that stands
    at the pre-interrupt PC: R0 receives 42, the clock keeps running, and
    PC ends three bytes past the handler address. *)
Theorem tick_runs_pre_interrupt_instruction :
  reg pending_at_LDI !! 6%nat = Some 1 /\
  RAM.read (ram pending_at_LDI) (PC pending_at_LDI) = LDI /\
  RAM.read (ram pending_at_LDI) 0xF8 = 0x20 /\
  RAM.read (ram pending_at_LDI) 0x20 = HLT /\
  exists s', exec tick pending_at_LDI = Some s' /\
             reg s' !! 0%nat = Some 42 /\
             clock s' = true /\
             PC s' = 0x20 + 3.
Proof.
  repeat split; try reflexivity.
  eexists. split; [vm_compute; reflexivity|].
  repeat split; reflexivity.
Qed.








(** C5.  When the byte at PC is not a key of the branch table, the tick
    reports that byte, and it is the last thing the console receives in the
    tick; the clock is stopped; and however many periods follow, none of
    them changes the machine. *)
Theorem invalid_opcode_halts s :
  wf s ->
  branchTable !! RAM.read (ram s) (PC s) = None ->
  exists s', exec tick s = Some s' /\
             head (console s') = Some (LogInvalid (RAM.read (ram s) (PC s))) /\
             clock s' = false /\
             forall n, exec (periods n) s' = Some s'.
Proof.
  intros Hwf Hnone.
  destruct (interrupt_check_total s Hwf) as (s1 & Hint & _).
  unfold exec. rewrite tick_run.
  erewrite run_bind; [| exact Hint | reflexivity].
  unfold execute.
  erewrite run_bind; [| rewrite dispatch_invalid by exact Hnone; reflexivity
                      | apply advance_PC_run ].
  cbn [fmap option_fmap option_map snd].
  eexists. split; [reflexivity|].
  destruct (bool_decide _); cbn [console clock with_PC];
    (split; [reflexivity|]); (split; [reflexivity|]);
    intros n; apply (exec_run _ _ tt), periods_stopped; reflexivity.
Qed.

Lemma invalid_opcode_halts_witness :
  exists s', exec tick (machine [] [0; 0; 0; 0; 0; 0; 0; 0xF4] 0) = Some s' /\
             head (console s') = Some (LogInvalid 0) /\
             clock s' = false /\
             forall n, exec (periods n) s' = Some s'.
Proof.
  apply (invalid_opcode_halts (machine [] [0; 0; 0; 0; 0; 0; 0; 0xF4] 0)).
  - reflexivity.
  - vm_compute. reflexivity.
Defined.

(** *** Instructions one at a time *)

Lemma execute_run IR h a b s s1 :
  branchTable !! IR = Some h ->
  call h a b s = Some (tt, s1) ->
  execute IR a b s = advance_PC IR s1.
Proof.
  intros Hh H. unfold execute, dispatch. rewrite Hh.
  eapply run_bind; [exact H | reflexivity].
Qed.

Lemma handle_CMP_run s a b va vb :
  0 <= a -> 0 <= b ->
  reg s !! Z.to_nat a = Some va -> reg s !! Z.to_nat b = Some vb ->
  handle_CMP a b s =
  Some (tt, mkCPU (ram s) (reg s) (PC s)
                  (if decide (va = vb) then 1 else if decide (va > vb) then 2 else 4)
                  (clock s) (console s)).
Proof.
  intros Ha Hb Hva Hvb. unfold handle_CMP.
  eapply run_bind; [apply get_reg_run; eassumption |].
  eapply run_bind; [apply get_reg_run; eassumption |].
  cbn beta.
  destruct (decide (va = vb)) as [Heq|Hne].
  { rewrite bool_decide_true by done. reflexivity. }
  rewrite bool_decide_false by done.
  destruct (decide (va > vb)) as [Hgt|Hngt].
  { rewrite bool_decide_true by done. reflexivity. }
  rewrite bool_decide_false by done.
  rewrite bool_decide_true by lia. reflexivity.
Qed.

(** C6.  After CMP the EQUAL bit of FL is set exactly when the two
    registers are equal, the GREATER bit exactly when the first exceeds the
    second, the LESS bit exactly when it is below; no other bit is set, so
    FL is 1, 2 or 4, whatever it held before. *)
Theorem CMP_sets_exactly_one_flag s a b va vb :
  0 <= a -> 0 <= b ->
  reg s !! Z.to_nat a = Some va -> reg s !! Z.to_nat b = Some vb ->
  exists s', exec (execute CMP a b) s = Some s' /\
             FL s' = (if decide (va = vb) then 1
                      else if decide (va > vb) then 2 else 4) /\
             Z.testbit (FL s') 0 = bool_decide (va = vb) /\
             Z.testbit (FL s') 1 = bool_decide (va > vb) /\
             Z.testbit (FL s') 2 = bool_decide (va < vb) /\
             (forall j, 2 < j -> Z.testbit (FL s') j = false).
Proof.
  intros Ha Hb Hva Hvb. eexists. split.
  { apply (exec_run _ _ tt).
    rewrite (execute_run CMP (H2 handle_CMP) a b s _ eq_refl
               (handle_CMP_run s a b va vb Ha Hb Hva Hvb)).
    apply advance_PC_run. }
  change (bool_decide (CMP ∈ sets_PC)) with false.
  cbn [FL with_PC]. split; [reflexivity|].
  destruct (decide (va = vb)) as [Heq|Hne];
    [|destruct (decide (va > vb)) as [Hgt|Hngt]].
  - rewrite (bool_decide_true (va = vb)), (bool_decide_false (va > vb)),
      (bool_decide_false (va < vb)) by lia.
    repeat split; try reflexivity.
    intros j Hj. apply Z.bits_above_log2; [lia|].
    eapply Z.le_lt_trans; [|exact Hj]. vm_compute. discriminate.
  - rewrite (bool_decide_false (va = vb)), (bool_decide_true (va > vb)),
      (bool_decide_false (va < vb)) by lia.
    repeat split; try reflexivity.
    intros j Hj. apply Z.bits_above_log2; [lia|].
    eapply Z.le_lt_trans; [|exact Hj]. vm_compute. discriminate.
  - rewrite (bool_decide_false (va = vb)), (bool_decide_false (va > vb)),
      (bool_decide_true (va < vb)) by lia.
    repeat split; try reflexivity.
    intros j Hj. apply Z.bits_above_log2; [lia|].
    eapply Z.le_lt_trans; [|exact Hj]. vm_compute. discriminate.
Qed.

Lemma CMP_sets_exactly_one_flag_witness :
  exists s', exec (execute CMP 0 1) (machine [] [7; 3; 0; 0; 0; 0; 0; 0xF4] 0)
             = Some s' /\
             FL s' = 2 /\
             Z.testbit (FL s') 0 = false /\
             Z.testbit (FL s') 1 = true /\
             Z.testbit (FL s') 2 = false /\
             (forall j, 2 < j -> Z.testbit (FL s') j = false).
Proof.
  apply (CMP_sets_exactly_one_flag
           (machine [] [7; 3; 0; 0; 0; 0; 0; 0xF4] 0) 0 1 7 3).
  - lia.
  - lia.
  - reflexivity.
  - reflexivity.
Defined.












Lemma double_small z : Z.abs z <= 2 ^ 53 -> double z = Some z.
Proof.
  intros Hz. unfold double.
  destruct (Z.ltb_spec (Z.abs z) (2 ^ 53)) as [Hlt|Hge]; [reflexivity|].
  assert (z = 2 ^ 53 \/ z = - 2 ^ 53) as [-> | ->] by lia;
    vm_compute; reflexivity.
Qed.

(** The two arithmetic handlers store the double of the exact result. *)
Lemma handle_arith_run (op : alu_op) s a b va vb v :
  0 <= a -> 0 <= b ->
  reg s !! Z.to_nat a = Some va -> reg s !! Z.to_nat b = Some vb ->
  double (match op with ALU_MUL => va * vb | ALU_ADD => va + vb end) = Some v ->
  (v ← alu op a b; set_reg a v) s =
  Some (tt, mkCPU (ram s) (<[Z.to_nat a := v]> (reg s))
                  (PC s) (FL s) (clock s) (console s)).
Proof.
  intros Ha Hb Hva Hvb Hv. pose proof (lookup_lt_Some _ _ _ Hva) as Hlen.
  destruct op; cbn [alu];
    (eapply run_bind;
     [ eapply run_bind; [apply get_reg_run; eassumption |];
       eapply run_bind; [apply get_reg_run; eassumption |];
       unfold number; rewrite Hv; reflexivity
     | apply set_reg_run; lia ]).
Qed.

(** Three squarings of the byte 255 already leave the integers that doubles
    hold exactly: register 0 ends one below 255^8. *)
Example squares_rounds :
  255 ^ 8 = 17878103347812890625 /\
  (fun s => reg s !! 0%nat) <$> exec (startClock ;; periods 4) squares =
  Some (Some 17878103347812890624).
Proof. split; vm_compute; reflexivity. Qed.

(** C10, as stated, fails twice.  When both operands name the same
    register, register B is not kept: [ADD R0, R0] with R0 = 3 leaves 6 in
    R0.  And the sum is not always the exact integer: [ADD R0, R1] with
    R0 = 2^53 and R1 = 1 leaves 2^53 in R0. *)
Lemma ADD_keeps_neither_B_nor_exactness :
  ~ ADD_sums_and_keeps_B (machine [] [3; 4; 0; 0; 0; 0; 0; 0xF4] 0) 0 0 /\
  ~ ADD_sums_and_keeps_B (machine [] [2 ^ 53; 1; 0; 0; 0; 0; 0; 0xF4] 0) 0 1.
Proof.
  split.
  - intros H. destruct (H 3 3 eq_refl eq_refl) as (s' & Hrun & _ & HB).
    vm_compute in Hrun. injection Hrun as <-.
    vm_compute in HB. discriminate.
  - intros H. destruct (H (2 ^ 53) 1 eq_refl eq_refl) as (s' & Hrun & HA & _).
    vm_compute in Hrun. injection Hrun as <-.
    vm_compute in HA. discriminate.
Qed.

(** C10 (amended).  ADD leaves in register A the sum of the two registers
    and MUL their product, unmasked, and exactly so whenever the exact
    result is at most 2^53 in magnitude; register B keeps its value
    whenever it is a register other than A. *)
Theorem ADD_MUL_exact s a b va vb :
  0 <= a -> 0 <= b ->
  reg s !! Z.to_nat a = Some va -> reg s !! Z.to_nat b = Some vb ->
  (Z.abs (va + vb) <= 2 ^ 53 ->
   exists s', exec (execute ADD a b) s = Some s' /\
              reg s' !! Z.to_nat a = Some (va + vb) /\
              (b <> a -> reg s' !! Z.to_nat b = Some vb)) /\
  (Z.abs (va * vb) <= 2 ^ 53 ->
   exists s', exec (execute MUL a b) s = Some s' /\
              reg s' !! Z.to_nat a = Some (va * vb) /\
              (b <> a -> reg s' !! Z.to_nat b = Some vb)).
Proof.
  intros Ha Hb Hva Hvb. pose proof (lookup_lt_Some _ _ _ Hva) as Hlen.
  split; intros Hsmall%double_small; eexists;
    (split; [apply (exec_run _ _ tt)|]).
  - rewrite (execute_run ADD (H2 handle_ADD) a b s _ eq_refl
               (handle_arith_run ALU_ADD s a b va vb _ Ha Hb Hva Hvb Hsmall)).
    apply advance_PC_run.
  - change (bool_decide (ADD ∈ sets_PC)) with false. cbn [reg with_PC].
    split; [apply list_lookup_insert_eq; exact Hlen|].
    intros Hne. rewrite list_lookup_insert_ne by lia. exact Hvb.
  - rewrite (execute_run MUL (H2 handle_MUL) a b s _ eq_refl
               (handle_arith_run ALU_MUL s a b va vb _ Ha Hb Hva Hvb Hsmall)).
    apply advance_PC_run.
  - change (bool_decide (MUL ∈ sets_PC)) with false. cbn [reg with_PC].
    split; [apply list_lookup_insert_eq; exact Hlen|].
    intros Hne. rewrite list_lookup_insert_ne by lia. exact Hvb.
Qed.

Lemma ADD_MUL_exact_witness :
  (exists s', exec (execute ADD 0 1) (machine [] [3; 4; 0; 0; 0; 0; 0; 0xF4] 0)
              = Some s' /\
              reg s' !! Z.to_nat 0 = Some (3 + 4) /\
              (1 <> 0 -> reg s' !! Z.to_nat 1 = Some 4)) /\
  (exists s', exec (execute MUL 0 1) (machine [] [3; 4; 0; 0; 0; 0; 0; 0xF4] 0)
              = Some s' /\
              reg s' !! Z.to_nat 0 = Some (3 * 4) /\
              (1 <> 0 -> reg s' !! Z.to_nat 1 = Some 4)).
Proof.
  destruct (ADD_MUL_exact (machine [] [3; 4; 0; 0; 0; 0; 0; 0xF4] 0) 0 1 3 4)
    as [Hadd Hmul].
  - lia.
  - lia.
  - reflexivity.
  - reflexivity.
  - split.
    + apply Hadd. vm_compute. discriminate.
    + apply Hmul. vm_compute. discriminate.
Defined.

(** ** What the handlers leave alone *)

Section Respects.
Context (R : CPU -> CPU -> Prop) `{!PreOrder R}.

Lemma respects_ret {A} (a : A) : respects R (mret a).
Proof. intros s a' s' [= _ <-]. reflexivity. Qed.

Lemma respects_bind {A B} (m : M A) (f : A -> M B) :
  respects R m -> (forall a, respects R (f a)) -> respects R (m ≫= f).
Proof.
  intros Hm Hf s b s'. unfold mbind, M_bind.
  destruct (m s) as [[a s1]|] eqn:E; [|discriminate].
  intros Hrun. etransitivity; [exact (Hm _ _ _ E) | exact (Hf _ _ _ _ Hrun)].
Qed.

Lemma respects_for_each l body :
  (forall i, respects R (body i)) -> respects R (for_each l body).
Proof.
  intros Hbody. induction l as [|i l IH]; cbn [for_each].
  - apply respects_ret.
  - apply respects_bind; [apply Hbody | intros _; exact IH].
Qed.

Lemma respects_get_reg i : respects R (get_reg i).
Proof.
  intros s v s'. unfold get_reg. case_decide; [|discriminate].
  destruct (reg s !! Z.to_nat i); [|discriminate].
  intros [= _ <-]. reflexivity.
Qed.

Lemma respects_get_PC : respects R get_PC.
Proof. intros s v s' [= _ <-]. reflexivity. Qed.

Lemma respects_get_FL : respects R get_FL.
Proof. intros s v s' [= _ <-]. reflexivity. Qed.

Lemma respects_ram_read a : respects R (ram_read a).
Proof. intros s v s' [= _ <-]. reflexivity. Qed.

Lemma respects_number z : respects R (number z).
Proof.
  intros s v s'. unfold number. destruct (double z); [|discriminate].
  intros [= _ <-]. reflexivity.
Qed.
End Respects.

#[local] Instance keeps_preorder {X} (f : CPU -> X) : PreOrder (keeps f).
Proof.
  split; [intros s; reflexivity|].
  intros s1 s2 s3 H12 H23. unfold keeps in *. congruence.
Qed.

#[local] Instance clock_not_started_preorder : PreOrder clock_not_started.
Proof. split; [intros s H; exact H|]. intros s1 s2 s3 H12 H23 H. auto. Qed.

(** A state-writing primitive, run on its own. *)
Ltac writes :=
  let s := fresh "s" in
  let H := fresh "H" in
  intros s ? ? H;
  unfold set_PC, set_FL, set_reg, ram_write, log, stopClock, handle_HLT in H;
  repeat case_decide; simplify_eq;
  unfold keeps, clock_not_started; cbn [ram reg PC FL clock console];
  first [ reflexivity | apply length_insert | discriminate | tauto ].

(** Walks down a handler: reads respect everything, each write is handed
    to [prim]. *)
Ltac walk prim :=
  lazymatch goal with
  | |- respects _ (@mbind _ _ _ _ _ _) =>
      apply respects_bind; try exact _;
      [ walk prim | intros ?; walk prim ]
  | |- respects _ (@mret _ _ _ _) => apply respects_ret; exact _
  | |- respects _ (for_each _ _) =>
      apply respects_for_each; try exact _; intros ?; walk prim
  | |- respects _ (get_reg _) => apply respects_get_reg; exact _
  | |- respects _ get_PC => apply respects_get_PC; exact _
  | |- respects _ get_FL => apply respects_get_FL; exact _
  | |- respects _ (ram_read _) => apply respects_ram_read; exact _
  | |- respects _ (number _) => apply respects_number; exact _
  | |- respects _ (if ?c then _ else _) => destruct c; walk prim
  | |- respects _ (match ?op with ALU_MUL => _ | ALU_ADD => _ end) =>
      destruct op; walk prim
  | |- _ => prim
  end.

Ltac respects_tac := walk ltac:(idtac; solve [ writes ]).

Ltac handlers :=
  unfold interrupt_general, log_high_ram, call, handle_ADD, handle_MUL, alu,
    handle_CALL, handle_CMP, handle_JEQ, handle_JGT, handle_JLT, handle_JNE,
    handle_JMP, handle_LDI, handle_POP, handle_RET, handle_POPval, handle_PRA,
    handle_PRN, handle_PUSH, handle_PUSHval, handle_ST,
    handle_invalid_instruction, handle_HLT.

(** Case analysis over the seventeen entries of the branch table. *)
Ltac table_cases H :=
  apply elem_of_list_to_map_2 in H; unfold branchTable_entries in H;
  repeat (apply elem_of_cons in H as [H|H]; [injection H as -> ->|]);
  [..|apply elem_of_nil in H; destruct H].

Lemma interrupt_general_respects R `{!PreOrder R} :
  respects R (set_reg 6 0) ->
  (forall a v, respects R (ram_write a v)) ->
  (forall v, respects R (set_reg SP v)) ->
  (forall v, respects R (set_PC v)) ->
  (forall e, respects R (log e)) ->
  respects R interrupt_general.
Proof.
  intros H6 Hw Hsp Hpc Hlog. handlers.
  walk ltac:(idtac; lazymatch goal with
             | |- respects _ (log _) => apply Hlog
             | |- respects _ (ram_write _ _) => apply Hw
             | |- respects _ (set_PC _) => apply Hpc
             | |- respects _ (set_reg SP _) => apply Hsp
             | |- respects _ (set_reg 6 0) => apply H6
             end).
Qed.

(** Every handler of the table, and the invalid-instruction handler, keeps
    the register file at its length. *)
Lemma dispatch_keeps_length IR a b :
  respects (keeps (fun s => length (reg s))) (dispatch IR a b).
Proof.
  unfold dispatch. destruct (branchTable !! IR) as [h|] eqn:Hh.
  - table_cases Hh; handlers; respects_tac.
  - handlers. respects_tac.
Qed.

(** A hypothesis that a branch-table opcode is outside a list of opcodes
    that contains it. *)
Ltac absurd_opcode :=
  solve [ exfalso;
          match goal with
          | H : ?x ∉ _ |- _ =>
              apply H; apply (bool_decide_unpack _); vm_compute; exact I
          | H : ?x <> ?x |- _ => apply H; reflexivity
          end ].

Ltac dispatch_cases :=
  let Hh := fresh "Hh" in
  unfold dispatch;
  lazymatch goal with
  | |- respects _ (match branchTable !! ?IR with _ => _ end) =>
      destruct (branchTable !! IR) as [?|] eqn:Hh;
      [ table_cases Hh; try absurd_opcode; handlers; respects_tac
      | try (handlers; respects_tac) ]
  end.


Lemma dispatch_keeps_FL IR a b :
  IR <> CMP -> respects (keeps FL) (dispatch IR a b).
Proof. intros HIR. dispatch_cases. Qed.

Lemma dispatch_keeps_ram IR a b :
  IR ∉ [ST; PUSH; CALL] -> respects (keeps ram) (dispatch IR a b).
Proof. intros HIR. dispatch_cases. Qed.

Lemma dispatch_keeps_console IR a b :
  is_Some (branchTable !! IR) -> IR ∉ [PRN; PRA] ->
  respects (keeps console) (dispatch IR a b).
Proof. intros [h Hsome] HIR. dispatch_cases. Qed.

Lemma dispatch_keeps_clock IR a b :
  is_Some (branchTable !! IR) -> IR <> HLT ->
  respects (keeps clock) (dispatch IR a b).
Proof. intros [h Hsome] HIR. dispatch_cases. Qed.

Lemma dispatch_clock_not_started IR a b :
  respects clock_not_started (dispatch IR a b).
Proof. dispatch_cases. Qed.

Lemma interrupt_check_respects R `{!PreOrder R} :
  respects R interrupt_general -> respects R interrupt_check.
Proof.
  intros Hgen. unfold interrupt_check. walk ltac:(idtac; exact Hgen).
Qed.

Lemma interrupt_check_keeps {X} (f : CPU -> X) :
  respects (keeps f) (set_reg 6 0) ->
  (forall a v, respects (keeps f) (ram_write a v)) ->
  (forall v, respects (keeps f) (set_reg SP v)) ->
  (forall v, respects (keeps f) (set_PC v)) ->
  (forall e, respects (keeps f) (log e)) ->
  respects (keeps f) interrupt_check.
Proof.
  intros. apply interrupt_check_respects; [apply _|].
  apply interrupt_general_respects; [apply _|..]; assumption.
Qed.

(** A tick relates its two states by [R] as soon as its three stages do,
    for the instruction found at [PC]. *)
Lemma tick_relates R `{!PreOrder R} s s' :
  respects R interrupt_check ->
  respects R (dispatch (RAM.read (ram s) (PC s)) (RAM.read (ram s) (PC s + 1))
                       (RAM.read (ram s) (PC s + 2))) ->
  respects R (advance_PC (RAM.read (ram s) (PC s))) ->
  exec tick s = Some s' -> R s s'.
Proof.
  intros Hint Hd Hadv. unfold exec. rewrite tick_run.
  lazymatch goal with
  | |- snd <$> ?t = _ -> _ => destruct t as [[[] s1]|] eqn:E; [|discriminate]
  end.
  intros [= <-]. revert E. unfold execute.
  apply respects_bind; try exact _; [exact Hint | intros _].
  apply respects_bind; try exact _; [exact Hd | intros _]. exact Hadv.
Qed.

Lemma advance_PC_keeps {X} (f : CPU -> X) IR :
  (forall v, respects (keeps f) (set_PC v)) ->
  respects (keeps f) (advance_PC IR).
Proof.
  intros Hpc. unfold advance_PC. walk ltac:(idtac; apply Hpc).
Qed.

(** Within the embedding a tick returns a register file as long as the one
    it started with, whatever the instruction and whether or not an
    interrupt was serviced. *)
Lemma tick_keeps_register_count s s' :
  exec tick s = Some s' -> length (reg s') = length (reg s).
Proof.
  apply (tick_relates (keeps (fun s => length (reg s)))).
  - apply interrupt_check_keeps; intros; writes.
  - apply dispatch_keeps_length.
  - apply advance_PC_keeps. intros; writes.
Qed.

Lemma tick_keeps_register_count_witness :
  exists s', exec tick pending_at_LDI = Some s' /\
             length (reg s') = length (reg pending_at_LDI).
Proof.
  eexists. split.
  - vm_compute. reflexivity.
  - apply (tick_keeps_register_count pending_at_LDI). vm_compute. reflexivity.
Defined.

(** X1.  Only CMP writes the flags: a tick whose instruction is not CMP
    returns FL as it found it, also when it services an interrupt on the
    way (servicing neither saves nor touches FL). *)
Theorem tick_changes_FL_only_on_CMP s s' :
  RAM.read (ram s) (PC s) <> CMP ->
  exec tick s = Some s' ->
  FL s' = FL s.
Proof.
  intros HIR. apply (tick_relates (keeps FL)).
  - apply interrupt_check_keeps; intros; writes.
  - apply dispatch_keeps_FL. exact HIR.
  - apply advance_PC_keeps. intros; writes.
Qed.

Lemma tick_changes_FL_only_on_CMP_witness :
  exists s', exec tick pending_at_LDI = Some s' /\ FL s' = FL pending_at_LDI.
Proof.
  eexists. split.
  - vm_compute. reflexivity.
  - apply (tick_changes_FL_only_on_CMP pending_at_LDI).
    + vm_compute. discriminate.
    + vm_compute. reflexivity.
Defined.

(** X2.  A tick never starts the clock, and it stops it only for HLT or for
    a byte that is not in the branch table: for any other instruction the
    clock is after the tick what it was before. *)
Theorem tick_stops_clock_only_on_HLT_or_invalid s s' :
  exec tick s = Some s' ->
  (clock s' = true -> clock s = true) /\
  (is_Some (branchTable !! RAM.read (ram s) (PC s)) ->
   RAM.read (ram s) (PC s) <> HLT ->
   clock s' = clock s).
Proof.
  intros Hrun. split.
  - revert Hrun. apply (tick_relates clock_not_started).
    + apply interrupt_check_respects; [apply _|].
      apply interrupt_general_respects; [apply _|..]; intros; writes.
    + apply dispatch_clock_not_started.
    + unfold advance_PC. respects_tac.
  - intros Hkey HIR. revert Hrun. apply (tick_relates (keeps clock)).
    + apply interrupt_check_keeps; intros; writes.
    + apply dispatch_keeps_clock; assumption.
    + apply advance_PC_keeps. intros; writes.
Qed.

Lemma tick_stops_clock_only_on_HLT_or_invalid_witness :
  exists s', exec tick pending_at_LDI = Some s' /\
    (clock s' = true -> clock pending_at_LDI = true) /\
    (is_Some (branchTable !! RAM.read (ram pending_at_LDI) (PC pending_at_LDI)) ->
     RAM.read (ram pending_at_LDI) (PC pending_at_LDI) <> HLT ->
     clock s' = clock pending_at_LDI).
Proof.
  eexists. split.
  - vm_compute. reflexivity.
  - apply (tick_stops_clock_only_on_HLT_or_invalid pending_at_LDI).
    vm_compute. reflexivity.
Defined.

(** X3.  Without a pending interrupt, memory is written by ST, PUSH and
    CALL only: a tick on any other byte, valid opcode or not, returns the
    memory it was given. *)
Theorem tick_writes_memory_only_on_ST_PUSH_CALL s s' :
  reg s !! 6%nat = Some 0 ->
  RAM.read (ram s) (PC s) ∉ [ST; PUSH; CALL] ->
  exec tick s = Some s' ->
  ram s' = ram s.
Proof.
  intros H6 HIR. unfold exec. rewrite tick_run.
  erewrite run_bind; [| apply interrupt_check_idle; exact H6 | reflexivity].
  destruct (execute _ _ _ s) as [[[] s1]|] eqn:E; [|discriminate].
  intros [= <-]. revert E. unfold execute.
  apply (respects_bind (keeps ram)).
  - apply dispatch_keeps_ram. exact HIR.
  - intros _. apply advance_PC_keeps. intros; writes.
Qed.

Lemma tick_writes_memory_only_on_ST_PUSH_CALL_witness :
  exists s', exec tick demo = Some s' /\ ram s' = ram demo.
Proof.
  eexists. split.
  - vm_compute. reflexivity.
  - apply (tick_writes_memory_only_on_ST_PUSH_CALL demo).
    + reflexivity.
    + apply (bool_decide_unpack _). vm_compute. exact I.
    + vm_compute. reflexivity.
Defined.

(** X4.  Without a pending interrupt, only PRN and PRA print: a tick on any
    other opcode of the branch table adds nothing to the console. *)
Theorem tick_prints_only_on_PRN_PRA s s' :
  reg s !! 6%nat = Some 0 ->
  is_Some (branchTable !! RAM.read (ram s) (PC s)) ->
  RAM.read (ram s) (PC s) ∉ [PRN; PRA] ->
  exec tick s = Some s' ->
  console s' = console s.
Proof.
  intros H6 Hkey HIR. unfold exec. rewrite tick_run.
  erewrite run_bind; [| apply interrupt_check_idle; exact H6 | reflexivity].
  destruct (execute _ _ _ s) as [[[] s1]|] eqn:E; [|discriminate].
  intros [= <-]. revert E. unfold execute.
  apply (respects_bind (keeps console)).
  - apply dispatch_keeps_console; assumption.
  - intros _. apply advance_PC_keeps. intros; writes.
Qed.

Lemma tick_prints_only_on_PRN_PRA_witness :
  exists s', exec tick demo = Some s' /\ console s' = console demo.
Proof.
  eexists. split.
  - vm_compute. reflexivity.
  - apply (tick_prints_only_on_PRN_PRA demo).
    + reflexivity.
    + vm_compute. eexists. reflexivity.
    + apply (bool_decide_unpack _). vm_compute. exact I.
    + vm_compute. reflexivity.
Defined.



(** ** Instructions in sequence *)












(** ** The stack *)







(** ** Interrupts *)








(** ** Footprint in memory, and the fresh machine *)






(** X15.  A machine fresh from the constructor does nothing until the
    clock is started; once it is, the first period services no interrupt
    and runs the instruction stored at address 0 with the two bytes that
    follow it, whatever the memory holds. *)
Theorem fresh_machine_starts_at_address_zero (m : RAM.t) :
  (forall n, exec (periods n) (constructor m) = Some (constructor m)) /\
  exec (startClock ;; period) (constructor m) =
  exec (startClock ;; execute (RAM.read m 0) (RAM.read m 1) (RAM.read m 2))
       (constructor m).
Proof.
  split.
  - intros n. apply (exec_run _ _ tt), periods_stopped. reflexivity.
  - reflexivity.
Qed.
